(** * Running mean / variance scaler of [pat_coady/utils.py]

    A shallow embedding of the class [Scaler] (methods [__init__], [update]
    and [get]) together with the few numpy operations it calls.

    Number model.  The arrays of the source hold IEEE binary64 values; here
    an array element is a real number of the Standard Library, so every
    statement below is a statement in exact real arithmetic.  Rounding,
    overflow to infinity and NaN are outside the model.  Where numpy would
    produce NaN (a division by a zero count, the square root of a negative
    number) the model produces whatever [Rdiv] and [sqrt] give there, and no
    theorem below depends on such a value.

    Integer model.  Python integers ([x.shape[0]], [self.m]) are unbounded:
    they are [Z] here. *)

From Stdlib Require Import Reals Lra Lia List ZArith Bool Permutation.
From Stdlib Require String.
Import ListNotations.
Import String.StringSyntax.
Delimit Scope string_scope with string.

Open Scope R_scope.

(** ** The numpy operations used by [Scaler] *)

Module Np.

(** A two-dimensional array of shape [(shape0, ncols)], stored as its list
    of rows.  [ncols] is kept apart so that the shape [(0, w)] of an empty
    batch still knows its width, as in numpy. *)
Record ndarray2 : Type := mk_array { ncols : nat; rows : list (list R) }.


(** [x.shape[0]] *)
Definition shape0 (x : ndarray2) : nat := length (rows x).

(** [x[:, j]] *)
Definition column (j : nat) (x : ndarray2) : list R :=
  map (fun r => nth j r 0) (rows x).

(** [np.add.reduce] over one axis: accumulation from the left, 0 on an
    empty axis. *)
Definition add_reduce (l : list R) : R := fold_left Rplus l 0.

(** [np.mean] of a one-dimensional slice: the sum divided by the count. *)
Definition mean1 (l : list R) : R := add_reduce l / INR (length l).

(** [np.var] of a one-dimensional slice (ddof = 0): the mean of the
    squared deviations from the mean. *)
Definition var1 (l : list R) : R :=
  let arrmean := mean1 l in
  mean1 (map (fun v => (v - arrmean) * (v - arrmean)) l).

(** [np.mean(x, axis=0)] and [np.var(x, axis=0)]: one entry per column. *)
Definition mean_axis0 (x : ndarray2) : list R :=
  map (fun j => mean1 (column j x)) (seq 0 (ncols x)).

Definition var_axis0 (x : ndarray2) : list R :=
  map (fun j => var1 (column j x)) (seq 0 (ncols x)).

(** [np.zeros(k)], [np.square], [np.sqrt], [np.maximum(c, v)] *)
Definition zeros (k : nat) : list R := repeat 0 k.
Definition square (v : list R) : list R := map (fun a => a * a) v.
Definition sqrt (v : list R) : list R := map R_sqrt.sqrt v.
Definition maximum (c : R) (v : list R) : list R := map (Rmax c) v.

(** Array-with-scalar arithmetic. *)
Definition mul_scalar (v : list R) (c : R) : list R := map (fun a => a * c) v.
Definition scalar_mul (c : R) (v : list R) : list R := map (fun a => c * a) v.
Definition div_scalar (v : list R) (c : R) : list R := map (fun a => a / c) v.
Definition add_scalar (v : list R) (c : R) : list R := map (fun a => a + c) v.
Definition scalar_div (c : R) (v : list R) : list R := map (fun a => c / a) v.

Fixpoint zip_with (f : R -> R -> R) (u v : list R) : list R :=
  match u, v with
  | a :: u', b :: v' => f a b :: zip_with f u' v'
  | _, _ => []
  end.

(** Shapes [(k,)] and [(l,)] broadcast when they are equal or one of them
    is 1. *)
Definition broadcastable (k l : nat) : bool :=
  Nat.eqb k l || Nat.eqb k 1 || Nat.eqb l 1.

(** A binary ufunc on two one-dimensional arrays.  [None] stands for
    numpy's "operands could not be broadcast together". *)
Definition ufunc2 (f : R -> R -> R) (u v : list R) : option (list R) :=
  if Nat.eqb (length u) (length v) then Some (zip_with f u v)
  else match u, v with
       | [a], _ => Some (map (fun b => f a b) v)
       | _, [b] => Some (map (fun a => f a b) u)
       | _, _ => None
       end.

End Np.

(** ** The class [Scaler] *)

Module Scaler.

(** The attributes of an instance, in the order [__init__] sets them. *)
Record t : Type := mk
  { vars : list R; means : list R; m : Z; n : Z; first_pass : bool }.

(** The only exception the methods can raise: numpy's broadcasting
    failure. *)
Inductive exn : Type := ValueError.

Inductive result (A : Type) : Type :=
| Ok (a : A)
| Raise (e : exn).
Arguments Ok {A} a.
Arguments Raise {A} e.

(** A method body: it runs on the instance and leaves an outcome and the
    instance as it is when the method returns or raises. *)
Definition M (A : Type) : Type := t -> result A * t.

Definition ret {A} (a : A) : M A := fun s => (Ok a, s).

Definition bind {A B} (c : M A) (k : A -> M B) : M B :=
  fun s => match c s with
           | (Ok a, s') => k a s'
           | (Raise e, s') => (Raise e, s')
           end.

Definition raise {A} (e : exn) : M A := fun s => (Raise e, s).

Definition read {A} (field : t -> A) : M A := fun s => (Ok (field s), s).

Definition set_vars (v : list R) : M unit :=
  fun s => (Ok tt, mk v (means s) (m s) (n s) (first_pass s)).
Definition set_means (v : list R) : M unit :=
  fun s => (Ok tt, mk (vars s) v (m s) (n s) (first_pass s)).
Definition set_m (k : Z) : M unit :=
  fun s => (Ok tt, mk (vars s) (means s) k (n s) (first_pass s)).
Definition set_first_pass (b : bool) : M unit :=
  fun s => (Ok tt, mk (vars s) (means s) (m s) (n s) b).

(** The value of a numpy expression, or its broadcasting error. *)
Definition np {A} (o : option A) : M A :=
  match o with Some a => ret a | None => raise ValueError end.

Declare Scope scaler_scope.
Delimit Scope scaler_scope with scaler.
Notation "x <- c ;; k" := (bind c (fun x => k))
  (at level 61, c at next level, right associativity) : scaler_scope.
Notation "c ;; k" := (bind c (fun _ => k))
  (at level 61, right associativity) : scaler_scope.
Local Open Scope scaler_scope.

(** [Scaler(obs_dim)] *)
Definition init (obs_dim : nat) : t :=
  {| vars := Np.zeros obs_dim;
     means := Np.zeros obs_dim;
     m := 0%Z;
     n := 0%Z;
     first_pass := true |}.

(** [Scaler.update(x)] *)
Definition update (x : Np.ndarray2) : M unit :=
  fp <- read first_pass ;;
  if (fp : bool) then
    set_means (Np.mean_axis0 x) ;;
    set_vars (Np.var_axis0 x) ;;
    set_m (Z.of_nat (Np.shape0 x)) ;;
    set_first_pass false
  else
    let n := Z.of_nat (Np.shape0 x) in
    let new_data_var := Np.var_axis0 x in
    let new_data_mean := Np.mean_axis0 x in
    let new_data_mean_sq := Np.square new_data_mean in
    self_means <- read means ;;
    self_m <- read m ;;
    total <- np (Np.ufunc2 Rplus (Np.mul_scalar self_means (IZR self_m))
                                 (Np.mul_scalar new_data_mean (IZR n))) ;;
    let new_means := Np.div_scalar total (IZR (self_m + n)) in
    self_vars <- read vars ;;
    old_moment <- np (Np.ufunc2 Rplus self_vars (Np.square self_means)) ;;
    new_moment <- np (Np.ufunc2 Rplus new_data_var new_data_mean_sq) ;;
    moments <- np (Np.ufunc2 Rplus (Np.scalar_mul (IZR self_m) old_moment)
                                   (Np.scalar_mul (IZR n) new_moment)) ;;
    pooled <- np (Np.ufunc2 Rminus (Np.div_scalar moments (IZR (self_m + n)))
                                   (Np.square new_means)) ;;
    set_vars pooled ;;
    self_vars <- read vars ;;
    set_vars (Np.maximum 0 self_vars) ;;
    set_means new_means ;;
    self_m <- read m ;;
    set_m (self_m + n)%Z.

(** [Scaler.get()]: the 2-tuple [(scale, offset)], that is
    [1/(np.sqrt(self.vars) + 0.1)/3, self.means].  The literal [0.1] is the
    real number 1/10.  The specification calls this method
    [current_scale_and_offset]. *)
Definition get : M (list R * list R) :=
  self_vars <- read vars ;;
  self_means <- read means ;;
  ret (Np.div_scalar
         (Np.scalar_div 1 (Np.add_scalar (Np.sqrt self_vars) (1 / 10))) 3,
       self_means).

(** A training loop feeding batches one after the other; an exception
    that is not caught ends the loop. *)
Fixpoint feed (xs : list Np.ndarray2) : M unit :=
  match xs with
  | [] => ret tt
  | x :: xs' => update x ;; feed xs'
  end.

(** The instances a caller can hold: a fresh [Scaler(obs_dim)], and the
    instance left behind by any call of [update] (whether it returned or
    raised) on such an instance, with batches taken from the class
    [batch]. *)
Inductive reachable (batch : Np.ndarray2 -> Prop) (obs_dim : nat) : t -> Prop :=
| reach_init : reachable batch obs_dim (init obs_dim)
| reach_update (s : t) (x : Np.ndarray2) :
    reachable batch obs_dim s -> batch x ->
    reachable batch obs_dim (snd (update x s)).

End Scaler.

(** ** The notions the specification speaks in *)

Module Spec.

Definition total (l : list R) : R := fold_right Rplus 0 l.

(** Population mean: the sum over the count. *)
Definition population_mean (l : list R) : R := total l / INR (length l).

(** Population variance: the mean squared deviation, with divisor equal to
    the count (not the count minus one). *)
Definition population_variance (l : list R) : R :=
  total (map (fun v => (v - population_mean l) ^ 2) l) / INR (length l).



(** A batch of shape [(n, dimension)], [n = 0] included. *)
Definition matching_batch (dimension : nat) (x : Np.ndarray2) : Prop :=
  Np.ncols x = dimension.

Definition nonempty_batch (x : Np.ndarray2) : Prop := Np.rows x <> [].

Definition any_batch (x : Np.ndarray2) : Prop := True.

(** The statistics of the specification, one entry per dimension. *)
Definition column_means (x : Np.ndarray2) : list R :=
  map (fun i => population_mean (Np.column i x)) (seq 0 (Np.ncols x)).

Definition column_variances (x : Np.ndarray2) : list R :=
  map (fun i => population_variance (Np.column i x)) (seq 0 (Np.ncols x)).

End Spec.

(** ** The class [Logger]

    The fields of a log entry are scalar metrics: real numbers, as in
    [Scaler].  A Python dict keeps its keys in insertion order, and that
    order decides the columns of the CSV file: a dict is a list of
    key-value pairs here.  The world outside the instance is what the
    methods leave in it: the rows handed to the CSV file, the lines printed
    and the curves plotted.  How a row or a line is spelled in characters
    is the business of [csv], [str.format] and [matplotlib] and is not
    modelled. *)

Module Logger.

Definition key : Type := String.string.
Definition dict : Type := list (key * R).

(** [d[k]]; [None] stands for [KeyError]. *)
Fixpoint getitem (d : dict) (k : key) : option R :=
  match d with
  | [] => None
  | (k', v) :: d' => if String.eqb k k' then Some v else getitem d' k
  end.

(** [k in d] *)
Definition contains (d : dict) (k : key) : bool :=
  match getitem d k with Some _ => true | None => false end.

(** [d[k] = v]: an existing key keeps its place, a new key goes last. *)
Fixpoint setitem (d : dict) (k : key) (v : R) : dict :=
  match d with
  | [] => [(k, v)]
  | (k', v') :: d' =>
      if String.eqb k k' then (k, v) :: d' else (k', v') :: setitem d' k v
  end.

(** [d.update(items)] *)
Definition update (d items : dict) : dict :=
  fold_left (fun acc kv => setitem acc (fst kv) (snd kv)) items d.

(** [d.keys()] *)
Definition keys (d : dict) : list key := map fst d.

(** One row handed to the file: the header, or the cells of an entry, a
    missing field being the empty string [restval] of [csv.DictWriter]. *)
Inductive row : Type :=
| Header (fieldnames : list key)
| Cells (cells : list (option R)).

(** The file object [self.f]. *)
Record file : Type := mk_file { closed : bool; rows : list row }.

(** What [plt.plot(self.episodes, self.mean_rewards)] draws. *)
Record curve : Type := mk_curve { xs : list R; ys : list R }.

(** The attributes of an instance, in the order [__init__] sets them
    ([writer] holds the field names of the [DictWriter], once created),
    then the lines printed to stdout (episode and mean reward of each) and
    the curves plotted. *)
Record t : Type := mk
  { env_name : String.string;
    write_header : bool;
    log_entry : dict;
    f : file;
    writer : option (list key);
    mean_rewards : list R;
    episodes : list R;
    stdout : list (R * R);
    figure : list curve }.

Inductive exn : Type :=
| KeyError (k : key)
| ValueError
| AttributeError.

Inductive result (A : Type) : Type :=
| Ok (a : A)
| Raise (e : exn).
Arguments Ok {A} a.
Arguments Raise {A} e.

Definition M (A : Type) : Type := t -> result A * t.

Definition ret {A} (a : A) : M A := fun s => (Ok a, s).

Definition bind {A B} (c : M A) (k : A -> M B) : M B :=
  fun s => match c s with
           | (Ok a, s') => k a s'
           | (Raise e, s') => (Raise e, s')
           end.

Definition raise {A} (e : exn) : M A := fun s => (Raise e, s).

Definition read {A} (field : t -> A) : M A := fun s => (Ok (field s), s).

Definition set_write_header (b : bool) : M unit :=
  fun s => (Ok tt, mk (env_name s) b (log_entry s) (f s) (writer s)
                      (mean_rewards s) (episodes s) (stdout s) (figure s)).
Definition set_log_entry (d : dict) : M unit :=
  fun s => (Ok tt, mk (env_name s) (write_header s) d (f s) (writer s)
                      (mean_rewards s) (episodes s) (stdout s) (figure s)).
Definition set_f (o : file) : M unit :=
  fun s => (Ok tt, mk (env_name s) (write_header s) (log_entry s) o (writer s)
                      (mean_rewards s) (episodes s) (stdout s) (figure s)).
Definition set_writer (w : option (list key)) : M unit :=
  fun s => (Ok tt, mk (env_name s) (write_header s) (log_entry s) (f s) w
                      (mean_rewards s) (episodes s) (stdout s) (figure s)).
Definition set_mean_rewards (l : list R) : M unit :=
  fun s => (Ok tt, mk (env_name s) (write_header s) (log_entry s) (f s)
                      (writer s) l (episodes s) (stdout s) (figure s)).
Definition set_episodes (l : list R) : M unit :=
  fun s => (Ok tt, mk (env_name s) (write_header s) (log_entry s) (f s)
                      (writer s) (mean_rewards s) l (stdout s) (figure s)).
Definition set_stdout (l : list (R * R)) : M unit :=
  fun s => (Ok tt, mk (env_name s) (write_header s) (log_entry s) (f s)
                      (writer s) (mean_rewards s) (episodes s) l (figure s)).
Definition set_figure (l : list curve) : M unit :=
  fun s => (Ok tt, mk (env_name s) (write_header s) (log_entry s) (f s)
                      (writer s) (mean_rewards s) (episodes s) (stdout s) l).

Declare Scope logger_scope.
Delimit Scope logger_scope with logger.
Notation "x <- c ;; k" := (bind c (fun x => k))
  (at level 61, c at next level, right associativity) : logger_scope.
Notation "c ;; k" := (bind c (fun _ => k))
  (at level 61, right associativity) : logger_scope.
Local Open Scope logger_scope.

(** [d[k]] inside a method. *)
Definition subscript (d : dict) (k : key) : M R :=
  match getitem d k with Some v => ret v | None => raise (KeyError k) end.

(** [Logger(env_name, log_directory)], the file [log.csv] having been
    opened for writing. *)
Definition init (name : String.string) : t :=
  {| env_name := name;
     write_header := true;
     log_entry := [];
     f := mk_file false [];
     writer := None;
     mean_rewards := [];
     episodes := [];
     stdout := [];
     figure := [] |}.

(** A write to [self.f]: [ValueError] on a closed file. *)
Definition file_write (r : row) : M unit :=
  o <- read f ;;
  if closed o then raise ValueError
  else set_f (mk_file false (rows o ++ [r])).

(** [DictWriter.writeheader()] *)
Definition writeheader (fieldnames : list key) : M unit :=
  file_write (Header fieldnames).

(** [DictWriter.writerow(rowdict)]: a key of [rowdict] that is no field
    name is a [ValueError]; a field name missing from [rowdict] gives an
    empty cell. *)
Definition writerow (fieldnames : list key) (rowdict : dict) : M unit :=
  if forallb (fun k => existsb (String.eqb k) fieldnames) (keys rowdict)
  then file_write (Cells (map (getitem rowdict) fieldnames))
  else raise ValueError.

(** [Logger.disp(log)] *)
Definition disp (log : dict) : M unit :=
  episode <- subscript log "_Episode"%string ;;
  mean_reward <- subscript log "_MeanReward"%string ;;
  out <- read stdout ;;
  set_stdout (out ++ [(episode, mean_reward)]).

(** The plotting block of [write]: [plt.plot] refuses two sequences of
    different lengths. *)
Definition plot : M unit :=
  eps <- read episodes ;;
  rewards <- read mean_rewards ;;
  if Nat.eqb (length eps) (length rewards)
  then fig <- read figure ;; set_figure (fig ++ [mk_curve eps rewards])
  else raise ValueError.

(** [Logger.write(display, graph)] *)
Definition write (display graph : bool) : M unit :=
  (if display then entry <- read log_entry ;; disp entry else ret tt) ;;
  (if graph then plot else ret tt) ;;
  header <- read write_header ;;
  (if (header : bool) then
     entry <- read log_entry ;;
     let fieldnames := keys entry in
     set_writer (Some fieldnames) ;;
     writeheader fieldnames ;;
     set_write_header false
   else ret tt) ;;
  w <- read writer ;;
  entry <- read log_entry ;;
  match w with
  | Some fieldnames => writerow fieldnames entry
  | None => raise AttributeError
  end ;;
  set_log_entry [].

(** [Logger.log(items)] *)
Definition log (items : dict) : M unit :=
  (if contains items "_Episode"%string then
     episode <- subscript items "_Episode"%string ;;
     eps <- read episodes ;;
     set_episodes (eps ++ [episode]) ;;
     entry <- read log_entry ;;
     mean_reward <- subscript entry "_MeanReward"%string ;;
     rewards <- read mean_rewards ;;
     set_mean_rewards (rewards ++ [mean_reward])
   else ret tt) ;;
  entry <- read log_entry ;;
  set_log_entry (update entry items).

(** [Logger.close()] *)
Definition close : M unit :=
  o <- read f ;;
  set_f (mk_file true (rows o)).

(** The calls a training loop makes on a logger. *)
Inductive call : Type :=
| Log (items : dict)
| Write (display graph : bool)
| Close.

Definition perform (c : call) : M unit :=
  match c with
  | Log items => log items
  | Write display graph => write display graph
  | Close => close
  end.

(** The instances a caller can hold: a fresh logger, and the instance left
    behind by any call, whether it returned or raised. *)
Inductive reachable (name : String.string) : t -> Prop :=
| reach_init : reachable name (init name)
| reach_call (s : t) (c : call) :
    reachable name s -> reachable name (snd (perform c s)).

(** A loop of calls; an exception that is not caught ends it. *)
Fixpoint run (cs : list call) : M unit :=
  match cs with
  | [] => ret tt
  | c :: cs' => perform c ;; run cs'
  end.

(** The instance after a loop of calls whose exceptions are all caught. *)
Definition after (cs : list call) (s : t) : t :=
  fold_left (fun s' c => snd (perform c s')) cs s.

End Logger.

(** ** The environment [HalfCheetahEnvV2]

    The physics engine is not part of the repository: the simulation
    ([MujocoEnv.do_simulation]) is a function on the engine state taken as
    given, and so is the time step of the model file; [MujocoEnv.dt] is the
    time step times [frame_skip].  Positions and velocities are real
    numbers. *)

Module HalfCheetah.

(** [self.model.data]: the columns [qpos] and [qvel]. *)
Record data : Type := mk_data { qpos : list R; qvel : list R }.

Inductive exn : Type := IndexError.

Inductive result (A : Type) : Type :=
| Ok (a : A)
| Raise (e : exn).
Arguments Ok {A} a.
Arguments Raise {A} e.

(** The dict [_step] returns as its fourth component. *)
Record info : Type := mk_info { reward_run : R; reward_ctrl : R }.

(** The 4-tuple [_step] returns. *)
Record transition : Type :=
  mk_transition { ob : list R; reward : R; done : bool; extras : info }.

(** The second argument of [MujocoEnv.__init__] in [__init__]. *)
Definition frame_skip : nat := 5.

(** [qpos[i, 0]] *)
Definition item (q : list R) (i : nat) : result R :=
  match nth_error q i with Some v => Ok v | None => Raise IndexError end.

(** [np.square(action).sum()] *)
Definition sum_squares (action : list R) : R :=
  fold_left Rplus (map (fun a => a * a) action) 0.

(** [self._get_obs()] *)
Definition _get_obs (d : data) : list R := tl (qpos d) ++ qvel d.

Section Engine.

Variable do_simulation : list R -> nat -> data -> data.
Variable timestep : R.

(** [self.dt] *)
Definition dt : R := timestep * INR frame_skip.

(** [self._step(action)]: the outcome and the engine state afterwards. *)
Definition _step (action : list R) (d : data) : result transition * data :=
  match item (qpos d) 0 with
  | Raise e => (Raise e, d)
  | Ok xposbefore =>
  match item (qpos d) 2 with
  | Raise e => (Raise e, d)
  | Ok torsoanglebefore =>
  let d' := do_simulation action frame_skip d in
  match item (qpos d') 0 with
  | Raise e => (Raise e, d')
  | Ok xposafter =>
  match item (qpos d') 2 with
  | Raise e => (Raise e, d')
  | Ok torsoangleafter =>
  let ob := _get_obs d' in
  let reward_ctrl := - (1 / 10) * sum_squares action in
  let reward_run := (xposafter - xposbefore) / dt in
  let reward_flat := - (torsoangleafter * torsoangleafter) in
  let reward := reward_ctrl + reward_run + reward_flat in
  let done := false in
  (Ok (mk_transition ob reward done (mk_info reward_run reward_ctrl)), d')
  end end end end.

End Engine.

End HalfCheetah.

(** ** Auxiliary definitions of the proofs *)


(** The shape two broadcastable shapes broadcast to. *)
Definition joined (k l : nat) : nat := if Nat.eqb k 1 then l else k.

(** One entry of the scale [get] returns. *)
Definition scale_of (v : R) : R := 1 / (R_sqrt.sqrt v + 1 / 10) / 3.

(** The two batches of the scenario of the specification, an empty batch of
    shape (0, 2) and a batch of shape (1, 3). *)
Definition batch_02 : Np.ndarray2 := Np.mk_array 2 [[0; 0]; [2; 0]].
Definition batch_46 : Np.ndarray2 := Np.mk_array 2 [[4; 0]; [6; 0]].
Definition empty_batch : Np.ndarray2 := Np.mk_array 2 [].
Definition wide_batch : Np.ndarray2 := Np.mk_array 3 [[1; 2; 3]].


(** A logger whose header is written and whose entry has a field the
    header does not have. *)
Definition blocked (h : list Logger.key) (s : Logger.t) : Prop :=
  Logger.write_header s = false
  /\ Logger.writer s = Some h
  /\ exists k, In k (Logger.keys (Logger.log_entry s)) /\ ~ In k h.

(** ** Sums, means and variances of one column *)

Section Columns.

Lemma fold_left_Rplus_acc (l : list R) (a : R) :
  fold_left Rplus l a = a + fold_left Rplus l 0.
Proof.
  revert a; induction l as [|v l IH]; intro a; simpl.
  - lra.
  - rewrite (IH (a + v)), (IH (0 + v)). lra.
Qed.

Lemma add_reduce_cons (v : R) (l : list R) :
  Np.add_reduce (v :: l) = v + Np.add_reduce l.
Proof.
  unfold Np.add_reduce; simpl.
  rewrite fold_left_Rplus_acc. lra.
Qed.

Lemma add_reduce_total (l : list R) : Np.add_reduce l = Spec.total l.
Proof.
  induction l as [|v l IH]; [reflexivity|].
  rewrite add_reduce_cons, IH. reflexivity.
Qed.





(** numpy's statistics are the population statistics of the
    specification. *)
Lemma mean1_population (l : list R) : Np.mean1 l = Spec.population_mean l.
Proof.
  unfold Np.mean1, Spec.population_mean. now rewrite add_reduce_total.
Qed.

Lemma var1_population (l : list R) : Np.var1 l = Spec.population_variance l.
Proof.
  unfold Np.var1, Spec.population_variance.
  rewrite !mean1_population. unfold Spec.population_mean at 1.
  rewrite length_map. f_equal. f_equal.
  apply map_ext. intro v. simpl. lra.
Qed.






End Columns.

(** ** One-dimensional arrays as tabulated functions *)

Section Vectors.





Lemma zip_with_length (f : R -> R -> R) (u v : list R) :
  length u = length v -> length (Np.zip_with f u v) = length u.
Proof.
  revert v; induction u as [|a u IH]; intros [|b v] H; simpl in *;
    try reflexivity; try discriminate.
  f_equal. apply IH. lia.
Qed.

(** A binary ufunc fails exactly on shapes that do not broadcast. *)
Lemma ufunc2_None (f : R -> R -> R) (u v : list R) :
  Np.ufunc2 f u v = None <-> Np.broadcastable (length u) (length v) = false.
Proof.
  unfold Np.ufunc2, Np.broadcastable.
  destruct (Nat.eqb (length u) (length v)) eqn:E; simpl.
  - split; discriminate.
  - destruct u as [|a [|a' u]]; destruct v as [|b [|b' v]]; simpl in *;
      split; intro H; try discriminate; try reflexivity.
Qed.

(** The shape of its result. *)
Lemma ufunc2_length (f : R -> R -> R) (u v w : list R) :
  Np.ufunc2 f u v = Some w ->
  length w = if Nat.eqb (length u) 1 then length v else length u.
Proof.
  unfold Np.ufunc2.
  destruct (Nat.eqb (length u) (length v)) eqn:E.
  - apply Nat.eqb_eq in E. intro H; injection H as <-.
    rewrite zip_with_length by assumption.
    destruct (Nat.eqb (length u) 1) eqn:E1; [|reflexivity].
    apply Nat.eqb_eq in E1. lia.
  - destruct u as [|a [|a' u]]; destruct v as [|b [|b' v]]; simpl in *;
      intro H; try discriminate; injection H as <-;
      simpl; rewrite ?length_map; reflexivity.
Qed.

End Vectors.

(** ** What one call of [update] does *)

Section UpdateSteps.

Local Open Scope scaler_scope.

(** First call: the statistics of the batch replace the attributes. *)
Lemma update_first (s : Scaler.t) (x : Np.ndarray2) :
  Scaler.first_pass s = true ->
  Scaler.update x s =
  (Scaler.Ok tt,
   Scaler.mk (Np.var_axis0 x) (Np.mean_axis0 x)
     (Z.of_nat (Np.shape0 x)) (Scaler.n s) false).
Proof.
  intro H. destruct s as [vs ms cnt k fp]. simpl in H. subst fp.
  reflexivity.
Qed.


End UpdateSteps.

(** ** Merging a batch into statistics that are exact so far *)

Section Merge.

Variable d : nat.






End Merge.

(** ** The concrete scenario of the specification *)





(** ** Later calls of [update] on any instance *)

Section UpdateLater.

Lemma broadcastable_refl (k : nat) : Np.broadcastable k k = true.
Proof. unfold Np.broadcastable. now rewrite Nat.eqb_refl. Qed.

Lemma ufunc2_Some (f : R -> R -> R) (u v : list R) :
  Np.broadcastable (length u) (length v) = true ->
  exists w, Np.ufunc2 f u v = Some w
            /\ length w = if Nat.eqb (length u) 1 then length v else length u.
Proof.
  intro B. destruct (Np.ufunc2 f u v) as [w|] eqn:E.
  - exists w. split; [reflexivity|]. now apply ufunc2_length with f.
  - apply ufunc2_None in E. congruence.
Qed.

Lemma joined_same (k : nat) : joined k k = k.
Proof. unfold joined. now destruct (Nat.eqb k 1). Qed.

Lemma broadcastable_joined (k l : nat) :
  Np.broadcastable k l = true -> Np.broadcastable (joined k l) l = true.
Proof.
  unfold Np.broadcastable, joined. intro B.
  destruct (Nat.eqb k 1) eqn:E1.
  - now rewrite Nat.eqb_refl.
  - rewrite E1. exact B.
Qed.

(** A later call either merges (the shapes broadcast) or raises before
    any attribute is assigned. *)
Ltac run :=
  cbn [Scaler.bind Scaler.read Scaler.np Scaler.ret Scaler.raise
       Scaler.set_vars Scaler.set_means Scaler.set_m Scaler.set_first_pass
       Scaler.first_pass Scaler.vars Scaler.means Scaler.m Scaler.n].

Ltac shapes :=
  unfold Np.mean_axis0, Np.var_axis0, Np.mul_scalar, Np.scalar_mul,
    Np.div_scalar, Np.square, Np.maximum in *;
  repeat rewrite ?length_map, ?length_seq in *.

Lemma update_later (s : Scaler.t) (x : Np.ndarray2) :
  Scaler.first_pass s = false ->
  length (Scaler.vars s) = length (Scaler.means s) ->
  if Np.broadcastable (length (Scaler.means s)) (Np.ncols x) then
    exists pooled new_means,
      Scaler.update x s =
      (Scaler.Ok tt,
       Scaler.mk (Np.maximum 0 pooled) new_means
         (Scaler.m s + Z.of_nat (Np.shape0 x)) (Scaler.n s) false)
      /\ length pooled = joined (length (Scaler.means s)) (Np.ncols x)
      /\ length new_means = joined (length (Scaler.means s)) (Np.ncols x)
  else Scaler.update x s = (Scaler.Raise Scaler.ValueError, s).
Proof.
  destruct s as [vs ms cnt k fp]. cbn [Scaler.first_pass Scaler.vars
    Scaler.means Scaler.m Scaler.n]. intros -> Hlen.
  unfold Scaler.update. run.
  destruct (Np.broadcastable (length ms) (Np.ncols x)) eqn:B.
  - destruct (ufunc2_Some Rplus (Np.mul_scalar ms (IZR cnt))
                (Np.mul_scalar (Np.mean_axis0 x)
                   (IZR (Z.of_nat (Np.shape0 x)))))
      as (total & -> & Ltotal); [now shapes|].
    run.
    destruct (ufunc2_Some Rplus vs (Np.square ms)) as (old & -> & Lold);
      [shapes; rewrite Hlen; apply broadcastable_refl|].
    run.
    destruct (ufunc2_Some Rplus (Np.var_axis0 x)
                (Np.square (Np.mean_axis0 x))) as (new & -> & Lnew);
      [shapes; apply broadcastable_refl|].
    run.
    assert (Ltotal' : length total = joined (length ms) (Np.ncols x))
      by (rewrite Ltotal; now shapes).
    assert (Lold' : length old = length ms)
      by (rewrite Lold, Hlen; shapes; apply joined_same).
    assert (Lnew' : length new = Np.ncols x)
      by (rewrite Lnew; shapes; apply joined_same).
    clear Ltotal Lold Lnew.
    destruct (ufunc2_Some Rplus (Np.scalar_mul (IZR cnt) old)
                (Np.scalar_mul (IZR (Z.of_nat (Np.shape0 x))) new))
      as (moments & -> & Lmom);
      [unfold Np.scalar_mul; now rewrite !length_map, Lold', Lnew'|].
    run.
    assert (Lmom' : length moments = joined (length ms) (Np.ncols x))
      by (rewrite Lmom; unfold Np.scalar_mul;
          now rewrite !length_map, Lold', Lnew').
    clear Lmom.
    destruct (ufunc2_Some Rminus
                (Np.div_scalar moments
                   (IZR (cnt + Z.of_nat (Np.shape0 x))))
                (Np.square
                   (Np.div_scalar total
                      (IZR (cnt + Z.of_nat (Np.shape0 x))))))
      as (pooled & -> & Lpool);
      [unfold Np.square, Np.div_scalar;
       rewrite !length_map, Lmom', Ltotal'; apply broadcastable_refl|].
    run.
    exists pooled, (Np.div_scalar total (IZR (cnt + Z.of_nat (Np.shape0 x)))).
    split; [reflexivity|]. split.
    + rewrite Lpool. unfold Np.square, Np.div_scalar.
      rewrite !length_map, Lmom', Ltotal'. apply joined_same.
    + unfold Np.div_scalar. now rewrite length_map.
  - assert (E : Np.ufunc2 Rplus (Np.mul_scalar ms (IZR cnt))
                  (Np.mul_scalar (Np.mean_axis0 x)
                     (IZR (Z.of_nat (Np.shape0 x)))) = None)
      by (apply ufunc2_None; now shapes).
    rewrite E. reflexivity.
Qed.

(** Whatever the instance, an exception leaves it as it was. *)
Lemma update_raise_unchanged (s : Scaler.t) (x : Np.ndarray2) (e : Scaler.exn) :
  fst (Scaler.update x s) = Scaler.Raise e ->
  snd (Scaler.update x s) = s /\ Scaler.first_pass s = false.
Proof.
  destruct s as [vs ms cnt k [|]].
  - rewrite update_first by reflexivity. discriminate.
  - unfold Scaler.update, Scaler.bind, Scaler.read.
    cbn [Scaler.first_pass Scaler.vars Scaler.means Scaler.m Scaler.n].
    repeat match goal with
           | |- context [Scaler.np ?o] =>
               destruct o; cbn [Scaler.np Scaler.ret Scaler.raise]
           end;
      cbn; intro H; try discriminate; split; reflexivity.
Qed.

End UpdateLater.

(** ** Invariants of the reachable instances *)

Section Invariants.

Variable batch : Np.ndarray2 -> Prop.
Variable d : nat.

(** How one call changes an instance whose two arrays agree in shape. *)
Lemma update_cases (s : Scaler.t) (x : Np.ndarray2) :
  length (Scaler.vars s) = length (Scaler.means s) ->
  (Scaler.first_pass s = true /\
   Scaler.update x s =
   (Scaler.Ok tt,
    Scaler.mk (Np.var_axis0 x) (Np.mean_axis0 x)
      (Z.of_nat (Np.shape0 x)) (Scaler.n s) false))
  \/ (Scaler.first_pass s = false /\
      Np.broadcastable (length (Scaler.means s)) (Np.ncols x) = true /\
      exists pooled new_means,
        Scaler.update x s =
        (Scaler.Ok tt,
         Scaler.mk (Np.maximum 0 pooled) new_means
           (Scaler.m s + Z.of_nat (Np.shape0 x)) (Scaler.n s) false)
        /\ length pooled = joined (length (Scaler.means s)) (Np.ncols x)
        /\ length new_means = joined (length (Scaler.means s)) (Np.ncols x))
  \/ (Scaler.first_pass s = false /\
      Np.broadcastable (length (Scaler.means s)) (Np.ncols x) = false /\
      Scaler.update x s = (Scaler.Raise Scaler.ValueError, s)).
Proof.
  intro Hlen. destruct (Scaler.first_pass s) eqn:Hfp.
  - left. split; [reflexivity|]. now apply update_first.
  - right. pose proof (update_later s x Hfp Hlen) as H.
    destruct (Np.broadcastable (length (Scaler.means s)) (Np.ncols x)).
    + left. auto.
    + right. auto.
Qed.

Lemma length_maximum (c : R) (v : list R) : length (Np.maximum c v) = length v.
Proof. apply length_map. Qed.

Lemma length_mean_axis0 (x : Np.ndarray2) : length (Np.mean_axis0 x) = Np.ncols x.
Proof. unfold Np.mean_axis0. now rewrite length_map, length_seq. Qed.

Lemma length_var_axis0 (x : Np.ndarray2) : length (Np.var_axis0 x) = Np.ncols x.
Proof. unfold Np.var_axis0. now rewrite length_map, length_seq. Qed.

(** Both arrays always have one shape, the count is never negative, and
    an instance still waiting for its first batch is the fresh one. *)
Lemma reachable_basic (s : Scaler.t) :
  Scaler.reachable batch d s ->
  length (Scaler.vars s) = length (Scaler.means s)
  /\ (0 <= Scaler.m s)%Z
  /\ (Scaler.first_pass s = true -> s = Scaler.init d).
Proof.
  induction 1 as [|s x _ (Hlen & Hm & Hfresh) Hx].
  - split; [reflexivity|]. split; [cbn; lia | reflexivity].
  - destruct (update_cases s x Hlen)
      as [(Hfp & ->) | [(Hfp & _ & vs & ms & -> & Lv & Lm) | (Hfp & _ & ->)]];
      cbn [snd Scaler.vars Scaler.means Scaler.m Scaler.first_pass].
    + rewrite length_mean_axis0, length_var_axis0.
      split; [reflexivity|]. split; [lia | discriminate].
    + rewrite length_maximum, Lv, Lm.
      split; [reflexivity|]. split; [lia | discriminate].
    + auto.
Qed.

End Invariants.


(** With batches of the width given at construction the two arrays keep
    that width. *)
Lemma reachable_matching_length (d : nat) (s : Scaler.t) :
  Scaler.reachable (Spec.matching_batch d) d s ->
  length (Scaler.means s) = d /\ length (Scaler.vars s) = d.
Proof.
  induction 1 as [|s x Hs (Lm & Lv) Hx].
  - cbn. unfold Np.zeros. now rewrite repeat_length.
  - unfold Spec.matching_batch in Hx.
    destruct (update_cases s x (eq_trans Lv (eq_sym Lm)))
      as [(Hfp & ->) | [(Hfp & _ & vs & ms & -> & Lvs & Lms) | (Hfp & _ & ->)]];
      cbn [snd Scaler.vars Scaler.means].
    + now rewrite length_mean_axis0, length_var_axis0.
    + rewrite length_maximum, Lvs, Lms, Lm, Hx, joined_same. auto.
    + auto.
Qed.


(** With non-empty batches the count is positive once a batch has been
    absorbed. *)
Lemma reachable_count_flag (d : nat) (s : Scaler.t) :
  Scaler.reachable Spec.nonempty_batch d s ->
  (Scaler.first_pass s = true -> Scaler.m s = 0%Z)
  /\ (Scaler.first_pass s = false -> (0 < Scaler.m s)%Z).
Proof.
  induction 1 as [|s x Hs (IHt & IHf) Hx].
  - split; [reflexivity | discriminate].
  - destruct (reachable_basic _ _ _ Hs) as (Hlen & Hm & _).
    assert (Hn : (0 < Z.of_nat (Np.shape0 x))%Z).
    { unfold Spec.nonempty_batch in Hx. unfold Np.shape0.
      destruct (Np.rows x); [congruence | cbn [length]; lia]. }
    destruct (update_cases s x Hlen)
      as [(Hfp & ->) | [(Hfp & _ & vs & ms & -> & _) | (Hfp & _ & ->)]];
      cbn [snd Scaler.m Scaler.first_pass].
    + split; [discriminate | auto].
    + split; [discriminate | lia].
    + auto.
Qed.

(** ** Read-out *)

Lemma get_eq (s : Scaler.t) :
  Scaler.get s =
  (Scaler.Ok (map scale_of (Scaler.vars s), Scaler.means s), s).
Proof.
  unfold Scaler.get, Scaler.bind, Scaler.read, Scaler.ret. cbn.
  unfold Np.div_scalar, Np.scalar_div, Np.add_scalar, Np.sqrt.
  now rewrite !map_map.
Qed.



(** ** Batches of identical rows *)






(** ** Counting rows *)

Lemma rows_fed (xs : list Np.ndarray2) :
  length (concat (map Np.rows xs)) = list_sum (map Np.shape0 xs).
Proof.
  induction xs as [|x xs IH]; [reflexivity|].
  cbn [map concat list_sum]. now rewrite length_app, IH.
Qed.

Lemma feed_count (d : nat) (xs : list Np.ndarray2) (s0 s : Scaler.t) :
  Scaler.reachable Spec.any_batch d s0 ->
  Scaler.feed xs s0 = (Scaler.Ok tt, s) ->
  Scaler.m s = (Scaler.m s0 + Z.of_nat (length (concat (map Np.rows xs))))%Z.
Proof.
  revert s0. induction xs as [|x xs IH]; intros s0 Hs0 H.
  - cbn in H. injection H as <-. cbn. lia.
  - cbn [Scaler.feed] in H. unfold Scaler.bind in H.
    pose proof (Scaler.reach_update _ _ s0 x Hs0 I) as Hs1.
    destruct (reachable_basic _ _ _ Hs0) as (Hlen & _ & Hfresh).
    cbn [map concat]. rewrite length_app, Nat2Z.inj_add.
    destruct (update_cases s0 x Hlen)
      as [(Hfp & E) | [(Hfp & _ & vs & ms & E & _) | (Hfp & _ & E)]];
      rewrite E in H, Hs1; cbn [snd] in Hs1.
    + rewrite (IH _ Hs1 H). cbn [Scaler.m].
      rewrite (Hfresh Hfp). cbn [Scaler.m Scaler.init].
      unfold Np.shape0. lia.
    + rewrite (IH _ Hs1 H). cbn [Scaler.m]. unfold Np.shape0. lia.
    + discriminate.
Qed.

(** * The claims *)





(** C2, as the code has it.  [update] checks nothing itself and knows no
    [InvalidInput]: an empty batch is accepted, and so is, on the first
    call, a batch of any row width.  Its only failure is numpy's
    broadcasting [ValueError], on a later call, exactly when the row width
    of the batch differs from the current length of [means] and neither of
    the two is 1; when [update] raises, the instance is unchanged. *)
Theorem C2_update_failure (dimension : nat) (s : Scaler.t) (x : Np.ndarray2) :
  Scaler.reachable Spec.any_batch dimension s ->
  (fst (Scaler.update x s) = Scaler.Raise Scaler.ValueError
   \/ fst (Scaler.update x s) = Scaler.Ok tt)
  /\ (fst (Scaler.update x s) = Scaler.Raise Scaler.ValueError
      <-> Scaler.first_pass s = false
          /\ Np.broadcastable (length (Scaler.means s)) (Np.ncols x) = false)
  /\ (fst (Scaler.update x s) = Scaler.Raise Scaler.ValueError ->
      snd (Scaler.update x s) = s).
Proof.
  intro Hs. destruct (reachable_basic _ _ _ Hs) as (Hlen & _).
  destruct (update_cases s x Hlen)
    as [(Hfp & E) | [(Hfp & B & vs & ms & E & _) | (Hfp & B & E)]];
    rewrite E; cbn [fst snd].
  - split; [now right|]. split; [|discriminate].
    split; [discriminate | intros [H _]; congruence].
  - split; [now right|]. split; [|discriminate].
    split; [discriminate | intros [_ H]; congruence].
  - split; [now left|]. split; [|reflexivity].
    split; auto.
Qed.

Lemma C2_witness :
  (fst (Scaler.update wide_batch (snd (Scaler.update batch_02 (Scaler.init 2))))
   = Scaler.Raise Scaler.ValueError
   \/ fst (Scaler.update wide_batch
             (snd (Scaler.update batch_02 (Scaler.init 2))))
      = Scaler.Ok tt)
  /\ (fst (Scaler.update wide_batch
             (snd (Scaler.update batch_02 (Scaler.init 2))))
      = Scaler.Raise Scaler.ValueError
      <-> Scaler.first_pass (snd (Scaler.update batch_02 (Scaler.init 2)))
          = false
          /\ Np.broadcastable
               (length (Scaler.means
                          (snd (Scaler.update batch_02 (Scaler.init 2)))))
               (Np.ncols wide_batch) = false)
  /\ (fst (Scaler.update wide_batch
             (snd (Scaler.update batch_02 (Scaler.init 2))))
      = Scaler.Raise Scaler.ValueError ->
      snd (Scaler.update wide_batch
             (snd (Scaler.update batch_02 (Scaler.init 2))))
      = snd (Scaler.update batch_02 (Scaler.init 2))).
Proof.
  apply (C2_update_failure 2%nat).
  apply Scaler.reach_update; [apply Scaler.reach_init | exact I].
Defined.

(** C2, as stated, fails: a fresh instance of dimension 2 accepts the empty
    batch of shape (0, 2) and the batch [[1,2,3]] of row width 3; neither
    call raises, and each changes the instance. *)
Lemma C2_counterexample :
  (Np.rows empty_batch = []
   /\ fst (Scaler.update empty_batch (Scaler.init 2)) = Scaler.Ok tt
   /\ snd (Scaler.update empty_batch (Scaler.init 2)) <> Scaler.init 2)
  /\ (Np.ncols wide_batch <> 2%nat
      /\ fst (Scaler.update wide_batch (Scaler.init 2)) = Scaler.Ok tt
      /\ snd (Scaler.update wide_batch (Scaler.init 2)) <> Scaler.init 2).
Proof.
  rewrite !update_first by reflexivity. cbn [fst snd].
  repeat split; try discriminate;
    intro H; apply (f_equal Scaler.first_pass) in H; discriminate.
Qed.

(** C3, as the code has it.  In every instance reached from
    [Scaler(dimension)] through calls of [update] whose batches all have
    row width [dimension], [means] and [vars] have length [dimension]. *)
Theorem C3_length_invariant (dimension : nat) (s : Scaler.t) :
  Scaler.reachable (Spec.matching_batch dimension) dimension s ->
  length (Scaler.means s) = dimension /\ length (Scaler.vars s) = dimension.
Proof. apply reachable_matching_length. Qed.

Lemma C3_witness :
  length (Scaler.means (snd (Scaler.update batch_46
                               (snd (Scaler.update batch_02 (Scaler.init 2))))))
  = 2%nat
  /\ length (Scaler.vars (snd (Scaler.update batch_46
                                 (snd (Scaler.update batch_02 (Scaler.init 2))))))
     = 2%nat.
Proof.
  apply (C3_length_invariant 2%nat).
  apply Scaler.reach_update;
    [apply Scaler.reach_update; [apply Scaler.reach_init|] |]; reflexivity.
Defined.

(** C3, as stated, fails: after [update] with the batch [[1,2,3]] a fresh
    instance of dimension 2 has [means] and [vars] of length 3. *)
Lemma C3_counterexample :
  Scaler.reachable Spec.any_batch 2
    (snd (Scaler.update wide_batch (Scaler.init 2)))
  /\ length (Scaler.means (snd (Scaler.update wide_batch (Scaler.init 2))))
     = 3%nat
  /\ length (Scaler.vars (snd (Scaler.update wide_batch (Scaler.init 2))))
     = 3%nat.
Proof.
  split.
  - apply Scaler.reach_update; [apply Scaler.reach_init | exact I].
  - rewrite update_first by reflexivity. split; reflexivity.
Qed.



(** C5. First-batch initialisation.  On an instance that has absorbed no
    batch yet, [update] with a non-empty batch of n rows returns normally
    and sets [means] and [vars] to the batch's own per-dimension mean and
    population variance, the count to n and [first_pass] to false; what
    [means], [vars] and the count held before plays no part. *)
Theorem C5_first_batch (s : Scaler.t) (x : Np.ndarray2) :
  Scaler.first_pass s = true ->
  Np.rows x <> [] ->
  Scaler.update x s =
  (Scaler.Ok tt,
   {| Scaler.vars := Spec.column_variances x;
      Scaler.means := Spec.column_means x;
      Scaler.m := Z.of_nat (length (Np.rows x));
      Scaler.n := Scaler.n s;
      Scaler.first_pass := false |}).
Proof.
  intros Hfp _. rewrite update_first by assumption.
  unfold Np.var_axis0, Np.mean_axis0, Spec.column_variances, Spec.column_means.
  f_equal. f_equal.
  - apply map_ext. intro j. apply var1_population.
  - apply map_ext. intro j. apply mean1_population.
Qed.

Lemma C5_witness :
  Scaler.update batch_02 (Scaler.init 2) =
  (Scaler.Ok tt,
   {| Scaler.vars := Spec.column_variances batch_02;
      Scaler.means := Spec.column_means batch_02;
      Scaler.m := Z.of_nat (length (Np.rows batch_02));
      Scaler.n := Scaler.n (Scaler.init 2);
      Scaler.first_pass := false |}).
Proof.
  apply (C5_first_batch (Scaler.init 2) batch_02).
  - reflexivity.
  - discriminate.
Defined.

(** C6. Read-out formula.  On every instance [get] returns the pair
    (scale, offset) in which offset is [means] and scale holds, for every
    entry v of [vars], 1 / (sqrt v + 0.1) / 3. *)
Theorem C6_readout_formula (s : Scaler.t) :
  exists scale offset,
    Scaler.get s = (Scaler.Ok (scale, offset), s)
    /\ offset = Scaler.means s
    /\ scale = map (fun v => 1 / (R_sqrt.sqrt v + 1 / 10) / 3) (Scaler.vars s)
    /\ forall i,
         nth i offset 0 = nth i (Scaler.means s) 0
         /\ ((i < length (Scaler.vars s))%nat ->
             nth i scale 0
             = 1 / (R_sqrt.sqrt (nth i (Scaler.vars s) 0) + 1 / 10) / 3).
Proof.
  exists (map scale_of (Scaler.vars s)), (Scaler.means s).
  split; [apply get_eq|]. split; [reflexivity|]. split; [reflexivity|].
  intro i. split; [reflexivity|]. intro Hi.
  rewrite (nth_indep _ 0 (scale_of 0)) by now rewrite length_map.
  now rewrite (map_nth scale_of).
Qed.



(** C8. Read-out purity and idempotence.  [get] returns normally and
    leaves the instance exactly as it was, and two calls in a row return
    the same pair both times, the instance still being as it was. *)
Theorem C8_readout_pure (s : Scaler.t) :
  exists r,
    Scaler.get s = (Scaler.Ok r, s)
    /\ Scaler.bind Scaler.get
         (fun r1 => Scaler.bind Scaler.get (fun r2 => Scaler.ret (r1, r2))) s
       = (Scaler.Ok (r, r), s).
Proof.
  exists (map scale_of (Scaler.vars s), Scaler.means s).
  split; [apply get_eq|].
  unfold Scaler.bind. rewrite get_eq. cbv beta iota.
  rewrite get_eq. reflexivity.
Qed.

(** C9, as the code has it.  The count is 0 at construction and never
    negative; every call of [update] that returns normally on a batch of n
    rows increases the count by exactly n, so that after a loop of calls
    the count is the total number of rows fed; and in every instance
    reached through non-empty batches the count is 0 if and only if no
    batch has been absorbed ([first_pass] still true). *)
Theorem C9_count_accounting :
  (forall dimension : nat,
      Scaler.m (Scaler.init dimension) = 0%Z
      /\ Scaler.first_pass (Scaler.init dimension) = true)
  /\ (forall (dimension : nat) (s : Scaler.t),
         Scaler.reachable Spec.any_batch dimension s -> (0 <= Scaler.m s)%Z)
  /\ (forall (dimension : nat) (s s' : Scaler.t) (x : Np.ndarray2),
         Scaler.reachable Spec.any_batch dimension s ->
         Scaler.update x s = (Scaler.Ok tt, s') ->
         Scaler.m s' = (Scaler.m s + Z.of_nat (Np.shape0 x))%Z)
  /\ (forall (dimension : nat) (xs : list Np.ndarray2) (s : Scaler.t),
         Scaler.feed xs (Scaler.init dimension) = (Scaler.Ok tt, s) ->
         Scaler.m s = Z.of_nat (list_sum (map Np.shape0 xs)))
  /\ (forall (dimension : nat) (s : Scaler.t),
         Scaler.reachable Spec.nonempty_batch dimension s ->
         (Scaler.m s = 0%Z <-> Scaler.first_pass s = true)).
Proof.
  split; [|split; [|split; [|split]]].
  - intro d. split; reflexivity.
  - intros d s Hs. now destruct (reachable_basic _ _ _ Hs) as (_ & Hm & _).
  - intros d s s' x Hs E.
    destruct (reachable_basic _ _ _ Hs) as (Hlen & _ & Hfresh).
    destruct (update_cases s x Hlen)
      as [(Hfp & E') | [(_ & _ & vs & ms & E' & _) | (_ & _ & E')]];
      rewrite E' in E; try discriminate; injection E as <-; cbn [Scaler.m].
    + rewrite (Hfresh Hfp). reflexivity.
    + reflexivity.
  - intros d xs s E.
    rewrite (feed_count d xs (Scaler.init d) s (Scaler.reach_init _ _) E).
    cbn [Scaler.m Scaler.init]. now rewrite Z.add_0_l, rows_fed.
  - intros d s Hs. destruct (reachable_count_flag d s Hs) as (Ht & Hf).
    split.
    + intro H0. destruct (Scaler.first_pass s); [reflexivity|].
      specialize (Hf eq_refl). lia.
    + exact Ht.
Qed.

Lemma C9_witness :
  Scaler.m (snd (Scaler.update batch_02 (Scaler.init 2))) = 0%Z
  <-> Scaler.first_pass (snd (Scaler.update batch_02 (Scaler.init 2))) = true.
Proof.
  apply (proj2 (proj2 (proj2 (proj2 C9_count_accounting))) 2%nat).
  apply Scaler.reach_update; [apply Scaler.reach_init | discriminate].
Defined.

(** C9, as stated, fails: a fresh instance of dimension 2 accepts the empty
    batch of shape (0, 2); afterwards the count is still 0 although
    [first_pass] is false. *)
Lemma C9_counterexample :
  Scaler.reachable Spec.any_batch 2
    (snd (Scaler.update empty_batch (Scaler.init 2)))
  /\ fst (Scaler.update empty_batch (Scaler.init 2)) = Scaler.Ok tt
  /\ Scaler.m (snd (Scaler.update empty_batch (Scaler.init 2))) = 0%Z
  /\ Scaler.first_pass (snd (Scaler.update empty_batch (Scaler.init 2)))
     = false.
Proof.
  split.
  - apply Scaler.reach_update; [apply Scaler.reach_init | exact I].
  - rewrite update_first by reflexivity. repeat split.
Qed.




(** * Further properties of the code *)

(** ** [Scaler]: order and grouping of the batches *)

Section Order.






End Order.





(** ** [Scaler]: broadcasting, normalisation, translation *)

(** X3. Silent broadcasting.  On a call after the first, a batch whose row
    width differs from the length of the running statistics is not
    rejected when one of the two is 1: [update] returns normally, and
    [means] and [vars] take the width of the batch when they had length 1
    and keep their length when the batch has width 1. *)
Theorem X3_update_broadcasts (s : Scaler.t) (x : Np.ndarray2) :
  Scaler.first_pass s = false ->
  length (Scaler.vars s) = length (Scaler.means s) ->
  length (Scaler.means s) = 1%nat \/ Np.ncols x = 1%nat ->
  exists s',
    Scaler.update x s = (Scaler.Ok tt, s')
    /\ length (Scaler.means s')
       = (if Nat.eqb (length (Scaler.means s)) 1
          then Np.ncols x else length (Scaler.means s))
    /\ length (Scaler.vars s') = length (Scaler.means s').
Proof.
  intros Hfp Hlen Hone.
  assert (B : Np.broadcastable (length (Scaler.means s)) (Np.ncols x) = true).
  { unfold Np.broadcastable. destruct Hone as [-> | ->].
    - cbn. now rewrite orb_true_r.
    - cbn. now rewrite orb_true_r. }
  destruct (update_cases s x Hlen)
    as [(Hfp' & _) | [(_ & _ & vs & ms & -> & Lv & Lm) | (_ & B' & _)]];
    try congruence.
  eexists. split; [reflexivity|].
  cbn [Scaler.means Scaler.vars]. rewrite length_maximum, Lv, Lm.
  split; reflexivity.
Qed.

Lemma X3_witness :
  exists s',
    Scaler.update wide_batch (Scaler.mk [0] [0] 2 0 false) = (Scaler.Ok tt, s')
    /\ length (Scaler.means s') = 3%nat
    /\ length (Scaler.vars s') = length (Scaler.means s').
Proof.
  apply (X3_update_broadcasts (Scaler.mk [0] [0] 2 0 false) wide_batch).
  - reflexivity.
  - reflexivity.
  - left. reflexivity.
Defined.





Section Translation.

Variable c : R.








End Translation.



(** ** [Logger]: the dict of the entry *)

Section Dict.

Lemma getitem_keys (d : Logger.dict) (k : Logger.key) :
  Logger.contains d k = true <-> In k (Logger.keys d).
Proof.
  unfold Logger.contains. induction d as [|[k' v] d IH]; cbn.
  - split; [discriminate | tauto].
  - destruct (String.eqb k k') eqn:E.
    + apply String.eqb_eq in E. subst. split; auto.
    + apply String.eqb_neq in E. rewrite IH. split; [auto|].
      intros [H|H]; [congruence | assumption].
Qed.

Lemma keys_setitem (d : Logger.dict) (k : Logger.key) (v : R) :
  Logger.keys (Logger.setitem d k v)
  = Logger.keys d ++ (if Logger.contains d k then [] else [k]).
Proof.
  unfold Logger.contains, Logger.keys.
  induction d as [|[k' v'] d IH]; cbn.
  - reflexivity.
  - destruct (String.eqb k k') eqn:E; cbn.
    + apply String.eqb_eq in E. subst. now rewrite app_nil_r.
    + now rewrite IH.
Qed.

Lemma keys_update (d items : Logger.dict) :
  exists extra,
    Logger.keys (Logger.update d items) = Logger.keys d ++ extra
    /\ incl extra (Logger.keys items).
Proof.
  unfold Logger.update. revert d.
  induction items as [|[k v] items IH]; intro d; cbn.
  - exists []. split; [now rewrite app_nil_r | apply incl_nil_l].
  - destruct (IH (Logger.setitem d k v)) as (extra & E & Hincl).
    rewrite keys_setitem, <- app_assoc in E.
    eexists. split; [exact E|].
    apply incl_app; [|now apply incl_tl].
    destruct (Logger.contains d k); [apply incl_nil_l|].
    intros x [<-|[]]. now left.
Qed.

Lemma setitem_NoDup (d : Logger.dict) (k : Logger.key) (v : R) :
  NoDup (Logger.keys d) -> NoDup (Logger.keys (Logger.setitem d k v)).
Proof.
  intro H. rewrite keys_setitem.
  destruct (Logger.contains d k) eqn:E.
  - now rewrite app_nil_r.
  - apply NoDup_app; [assumption | repeat constructor; intros [] |].
    intros x Hx. intros [<-|[]].
    apply getitem_keys in Hx. congruence.
Qed.

Lemma update_NoDup (d items : Logger.dict) :
  NoDup (Logger.keys d) -> NoDup (Logger.keys (Logger.update d items)).
Proof.
  unfold Logger.update. revert d.
  induction items as [|[k v] items IH]; intros d H; cbn.
  - exact H.
  - apply IH. now apply setitem_NoDup.
Qed.

(** Read back through its own keys, a dict gives every value, in order. *)
Lemma getitem_own_keys (d : Logger.dict) :
  NoDup (Logger.keys d) ->
  map (Logger.getitem d) (Logger.keys d) = map (fun kv => Some (snd kv)) d.
Proof.
  induction d as [|[k v] d IH]; intro H; cbn.
  - reflexivity.
  - rewrite String.eqb_refl. f_equal.
    inversion H as [|? ? Hk Hd]; subst.
    rewrite <- (IH Hd). apply map_ext_in. intros k' Hk'.
    destruct (String.eqb k' k) eqn:E; [|reflexivity].
    apply String.eqb_eq in E. subst. contradiction.
Qed.

Lemma own_keys_accepted (d : Logger.dict) :
  forallb (fun k => existsb (String.eqb k) (Logger.keys d)) (Logger.keys d)
  = true.
Proof.
  apply forallb_forall. intros k Hk. apply existsb_exists.
  exists k. split; [assumption | apply String.eqb_refl].
Qed.

End Dict.

(** ** [Logger]: what one call does *)

Ltac logger_unfold :=
  unfold Logger.perform, Logger.write, Logger.log, Logger.close, Logger.disp,
    Logger.plot, Logger.writerow, Logger.writeheader, Logger.file_write,
    Logger.subscript, Logger.contains, Logger.bind, Logger.read, Logger.ret,
    Logger.raise, Logger.set_write_header, Logger.set_log_entry, Logger.set_f,
    Logger.set_writer, Logger.set_mean_rewards, Logger.set_episodes,
    Logger.set_stdout, Logger.set_figure in *.

Ltac logger_fields :=
  cbn [fst snd Logger.env_name Logger.write_header Logger.log_entry Logger.f
       Logger.writer Logger.mean_rewards Logger.episodes Logger.stdout
       Logger.figure Logger.closed Logger.rows] in *.

Ltac logger_split :=
  repeat (logger_fields;
          match goal with
          | |- context [match ?x with _ => _ end] =>
              lazymatch x with
              | context [match _ with _ => _ end] => fail
              | _ => destruct x eqn:?
              end
          end);
  logger_fields.

Section LoggerCalls.

(** [log] in full: the three ways a call can go. *)
Lemma log_cases (s : Logger.t) (items : Logger.dict) :
  Logger.log items s =
  match Logger.getitem items "_Episode"%string with
  | None =>
      (Logger.Ok tt,
       Logger.mk (Logger.env_name s) (Logger.write_header s)
         (Logger.update (Logger.log_entry s) items) (Logger.f s)
         (Logger.writer s) (Logger.mean_rewards s) (Logger.episodes s)
         (Logger.stdout s) (Logger.figure s))
  | Some episode =>
      match Logger.getitem (Logger.log_entry s) "_MeanReward"%string with
      | None =>
          (Logger.Raise (Logger.KeyError "_MeanReward"%string),
           Logger.mk (Logger.env_name s) (Logger.write_header s)
             (Logger.log_entry s) (Logger.f s) (Logger.writer s)
             (Logger.mean_rewards s) (Logger.episodes s ++ [episode])
             (Logger.stdout s) (Logger.figure s))
      | Some mean_reward =>
          (Logger.Ok tt,
           Logger.mk (Logger.env_name s) (Logger.write_header s)
             (Logger.update (Logger.log_entry s) items) (Logger.f s)
             (Logger.writer s)
             (Logger.mean_rewards s ++ [mean_reward])
             (Logger.episodes s ++ [episode])
             (Logger.stdout s) (Logger.figure s))
      end
  end.
Proof.
  destruct s as [name wh entry o w rewards eps out fig].
  logger_unfold. logger_fields.
  destruct (Logger.getitem items "_Episode"%string); [|reflexivity].
  logger_fields.
  destruct (Logger.getitem entry "_MeanReward"%string); reflexivity.
Qed.

(** The parts of the instance that [log] and [close] never touch, and what
    [write] leaves in the file. *)
Lemma write_file_cases (s : Logger.t) (display graph : bool) :
  let s' := snd (Logger.write display graph s) in
  (Logger.rows (Logger.f s') = Logger.rows (Logger.f s)
   /\ Logger.write_header s' = Logger.write_header s
   /\ Logger.log_entry s' = Logger.log_entry s
   /\ Logger.closed (Logger.f s') = Logger.closed (Logger.f s)
   /\ (Logger.writer s' = Logger.writer s
       \/ Logger.write_header s = true)
   /\ exists e, fst (Logger.write display graph s) = Logger.Raise e)
  \/ (Logger.write_header s = false
      /\ Logger.write_header s' = false
      /\ Logger.closed (Logger.f s) = false
      /\ Logger.closed (Logger.f s') = false
      /\ Logger.log_entry s' = []
      /\ fst (Logger.write display graph s) = Logger.Ok tt
      /\ exists h,
           Logger.writer s = Some h /\ Logger.writer s' = Some h
           /\ forallb (fun k => existsb (String.eqb k) h)
                (Logger.keys (Logger.log_entry s)) = true
           /\ Logger.rows (Logger.f s')
              = Logger.rows (Logger.f s)
                ++ [Logger.Cells (map (Logger.getitem (Logger.log_entry s)) h)])
  \/ (Logger.write_header s = true
      /\ Logger.write_header s' = false
      /\ Logger.closed (Logger.f s) = false
      /\ Logger.closed (Logger.f s') = false
      /\ Logger.log_entry s' = []
      /\ fst (Logger.write display graph s) = Logger.Ok tt
      /\ Logger.writer s' = Some (Logger.keys (Logger.log_entry s))
      /\ Logger.rows (Logger.f s')
         = Logger.rows (Logger.f s)
           ++ [Logger.Header (Logger.keys (Logger.log_entry s));
               Logger.Cells (map (Logger.getitem (Logger.log_entry s))
                               (Logger.keys (Logger.log_entry s)))]).
Proof.
  destruct s as [name wh entry [cl rs] w rewards eps out fig].
  pose proof (own_keys_accepted entry) as Hown.
  destruct display, graph, wh, cl; logger_unfold; logger_fields;
    logger_split;
    try (left; repeat split; eauto; fail);
    try (right; left; repeat split; eauto; fail);
    try (right; right; repeat split; try rewrite <- app_assoc; eauto; fail);
    try congruence.
Qed.

(** [write] never touches the two lists [log] fills. *)
Lemma write_keeps_lists (s : Logger.t) (display graph : bool) :
  Logger.episodes (snd (Logger.write display graph s)) = Logger.episodes s
  /\ Logger.mean_rewards (snd (Logger.write display graph s))
     = Logger.mean_rewards s.
Proof.
  destruct s as [name wh entry [cl rs] w rewards eps out fig].
  destruct display, graph, wh, cl; logger_unfold; logger_fields;
    logger_split; split; reflexivity.
Qed.

End LoggerCalls.

Lemma getitem_setitem (d : Logger.dict) (k k' : Logger.key) (v : R) :
  Logger.getitem (Logger.setitem d k v) k'
  = if String.eqb k' k then Some v else Logger.getitem d k'.
Proof.
  induction d as [|[k0 v0] d IH]; cbn.
  - reflexivity.
  - destruct (String.eqb k k0) eqn:E; cbn.
    + apply String.eqb_eq in E. subst k0.
      now destruct (String.eqb k' k).
    + rewrite IH. destruct (String.eqb k' k) eqn:E'; [|reflexivity].
      apply String.eqb_eq in E'. subst k'. now rewrite E.
Qed.

(** After [d.update(items)] the last value given for a key wins, and a key
    that [items] does not give keeps its value. *)
Lemma getitem_update (d items : Logger.dict) (k : Logger.key) :
  Logger.getitem (Logger.update d items) k
  = match Logger.getitem (rev items) k with
    | Some v => Some v
    | None => Logger.getitem d k
    end.
Proof.
  unfold Logger.update. induction items as [|[k' v] items IH] using rev_ind.
  - reflexivity.
  - rewrite fold_left_app, rev_app_distr. cbn.
    rewrite getitem_setitem, IH. now destruct (String.eqb k k').
Qed.

(** X7. [log] only adds to the entry being collected: the fields already
    there keep their position (and so their CSV column), new fields go
    last, whether the call returns or raises; and when it returns, every
    field given by the call has the value of the call and every other
    field the value it had. *)
Theorem X7_log_merges (s : Logger.t) (items : Logger.dict) :
  (exists extra,
      Logger.keys (Logger.log_entry (snd (Logger.log items s)))
      = Logger.keys (Logger.log_entry s) ++ extra
      /\ incl extra (Logger.keys items))
  /\ (fst (Logger.log items s) = Logger.Ok tt ->
      forall k,
        Logger.getitem (Logger.log_entry (snd (Logger.log items s))) k
        = match Logger.getitem (rev items) k with
          | Some v => Some v
          | None => Logger.getitem (Logger.log_entry s) k
          end).
Proof.
  rewrite log_cases.
  destruct (Logger.getitem items "_Episode"%string) as [ep|];
    [destruct (Logger.getitem (Logger.log_entry s) "_MeanReward"%string)|];
    cbn [fst snd Logger.log_entry]; split;
    try apply keys_update; try (intros _ k; apply getitem_update).
  - exists []. split; [now rewrite app_nil_r | apply incl_nil_l].
  - discriminate.
Qed.

Lemma X7_witness :
  Logger.getitem
    (Logger.log_entry
       (snd (Logger.log [("Steps"%string, 7)] (Logger.init "env"%string))))
    "Steps"%string
  = match Logger.getitem (rev [("Steps"%string, 7)]) "Steps"%string with
    | Some v => Some v
    | None =>
        Logger.getitem (Logger.log_entry (Logger.init "env"%string))
          "Steps"%string
    end.
Proof.
  apply (proj2 (X7_log_merges (Logger.init "env"%string)
                  [("Steps"%string, 7)])).
  reflexivity.
Defined.

(** X8. A [log] call that gives "_Episode" while the entry being collected
    has no "_MeanReward" raises [KeyError("_MeanReward")], also when the
    call itself gives "_MeanReward"; the episode number has been appended
    to [episodes] by then and stays there, so [episodes] is one longer
    than before while [mean_rewards] and the entry are unchanged. *)
Theorem X8_log_missing_mean_reward
  (s : Logger.t) (items : Logger.dict) (episode : R) :
  Logger.getitem items "_Episode"%string = Some episode ->
  Logger.getitem (Logger.log_entry s) "_MeanReward"%string = None ->
  fst (Logger.log items s) = Logger.Raise (Logger.KeyError "_MeanReward"%string)
  /\ Logger.episodes (snd (Logger.log items s))
     = Logger.episodes s ++ [episode]
  /\ Logger.mean_rewards (snd (Logger.log items s)) = Logger.mean_rewards s
  /\ Logger.log_entry (snd (Logger.log items s)) = Logger.log_entry s.
Proof.
  intros Hep Hmr. rewrite log_cases, Hep, Hmr. repeat split.
Qed.

Lemma X8_witness :
  fst (Logger.log [("_Episode"%string, 1); ("_MeanReward"%string, 5)]
         (Logger.init "env"%string))
  = Logger.Raise (Logger.KeyError "_MeanReward"%string)
  /\ Logger.episodes
       (snd (Logger.log [("_Episode"%string, 1); ("_MeanReward"%string, 5)]
               (Logger.init "env"%string)))
     = Logger.episodes (Logger.init "env"%string) ++ [1]
  /\ Logger.mean_rewards
       (snd (Logger.log [("_Episode"%string, 1); ("_MeanReward"%string, 5)]
               (Logger.init "env"%string)))
     = Logger.mean_rewards (Logger.init "env"%string)
  /\ Logger.log_entry
       (snd (Logger.log [("_Episode"%string, 1); ("_MeanReward"%string, 5)]
               (Logger.init "env"%string)))
     = Logger.log_entry (Logger.init "env"%string).
Proof.
  apply (X8_log_missing_mean_reward (Logger.init "env"%string)
           [("_Episode"%string, 1); ("_MeanReward"%string, 5)] 1).
  - reflexivity.
  - reflexivity.
Defined.

(** X9. The mean reward [log] records with an episode is the one the entry
    held before the call: a [log] call that gives "_Episode" while the
    entry has "_MeanReward" = r returns normally and appends the episode
    number to [episodes] and r to [mean_rewards], whatever "_MeanReward"
    the call itself gives; that value only enters the entry. *)
Theorem X9_log_previous_mean_reward
  (s : Logger.t) (items : Logger.dict) (episode r : R) :
  Logger.getitem items "_Episode"%string = Some episode ->
  Logger.getitem (Logger.log_entry s) "_MeanReward"%string = Some r ->
  fst (Logger.log items s) = Logger.Ok tt
  /\ Logger.episodes (snd (Logger.log items s))
     = Logger.episodes s ++ [episode]
  /\ Logger.mean_rewards (snd (Logger.log items s))
     = Logger.mean_rewards s ++ [r]
  /\ Logger.log_entry (snd (Logger.log items s))
     = Logger.update (Logger.log_entry s) items.
Proof.
  intros Hep Hmr. rewrite log_cases, Hep, Hmr. repeat split.
Qed.

Lemma X9_witness :
  let s := snd (Logger.log [("_MeanReward"%string, 5)]
                  (Logger.init "env"%string)) in
  let items := [("_Episode"%string, 1); ("_MeanReward"%string, 8)] in
  fst (Logger.log items s) = Logger.Ok tt
  /\ Logger.episodes (snd (Logger.log items s)) = Logger.episodes s ++ [1]
  /\ Logger.mean_rewards (snd (Logger.log items s))
     = Logger.mean_rewards s ++ [5]
  /\ Logger.log_entry (snd (Logger.log items s))
     = Logger.update (Logger.log_entry s) items.
Proof.
  apply (X9_log_previous_mean_reward
           (snd (Logger.log [("_MeanReward"%string, 5)]
                   (Logger.init "env"%string)))
           [("_Episode"%string, 1); ("_MeanReward"%string, 8)] 1 5).
  - reflexivity.
  - reflexivity.
Defined.

(** ** [Logger]: the CSV file *)

(** X10. The first [write] (without display or plot) on an open file
    writes the header and one row: the header holds the fields of the
    entry in the order they were first logged, the row holds their values
    in that order; the header flag is cleared and the entry is emptied. *)
Theorem X10_first_write (s : Logger.t) :
  Logger.write_header s = true ->
  Logger.closed (Logger.f s) = false ->
  NoDup (Logger.keys (Logger.log_entry s)) ->
  Logger.write false false s =
  (Logger.Ok tt,
   {| Logger.env_name := Logger.env_name s;
      Logger.write_header := false;
      Logger.log_entry := [];
      Logger.f :=
        Logger.mk_file false
          (Logger.rows (Logger.f s)
           ++ [Logger.Header (map fst (Logger.log_entry s));
               Logger.Cells (map (fun kv => Some (snd kv))
                               (Logger.log_entry s))]);
      Logger.writer := Some (map fst (Logger.log_entry s));
      Logger.mean_rewards := Logger.mean_rewards s;
      Logger.episodes := Logger.episodes s;
      Logger.stdout := Logger.stdout s;
      Logger.figure := Logger.figure s |}).
Proof.
  destruct s as [name wh entry [cl rs] w rewards eps out fig].
  logger_fields. intros -> -> Hnodup.
  pose proof (own_keys_accepted entry) as Hown.
  pose proof (getitem_own_keys entry Hnodup) as Hval.
  logger_unfold. logger_fields. unfold Logger.keys in *.
  rewrite Hown. logger_fields. rewrite Hval, <- app_assoc. reflexivity.
Qed.

Lemma X10_witness :
  let s := snd (Logger.log [("Steps"%string, 7); ("Loss"%string, 2)]
                  (Logger.init "env"%string)) in
  Logger.write false false s =
  (Logger.Ok tt,
   {| Logger.env_name := Logger.env_name s;
      Logger.write_header := false;
      Logger.log_entry := [];
      Logger.f :=
        Logger.mk_file false
          (Logger.rows (Logger.f s)
           ++ [Logger.Header (map fst (Logger.log_entry s));
               Logger.Cells (map (fun kv => Some (snd kv))
                               (Logger.log_entry s))]);
      Logger.writer := Some (map fst (Logger.log_entry s));
      Logger.mean_rewards := Logger.mean_rewards s;
      Logger.episodes := Logger.episodes s;
      Logger.stdout := Logger.stdout s;
      Logger.figure := Logger.figure s |}).
Proof.
  apply (X10_first_write
           (snd (Logger.log [("Steps"%string, 7); ("Loss"%string, 2)]
                   (Logger.init "env"%string)))).
  - reflexivity.
  - reflexivity.
  - repeat constructor; cbn; intuition discriminate.
Defined.

(** X11. The file is a well-formed table in every instance a caller can
    hold: either nothing has been written and the header is still due, or
    the file starts with the one header, the header is no longer due, and
    every later row is a row of cells with exactly as many cells as the
    header has fields. *)
Theorem X11_csv_table (name : String.string) (s : Logger.t) :
  Logger.reachable name s ->
  (Logger.rows (Logger.f s) = [] /\ Logger.write_header s = true)
  \/ (exists h body,
         Logger.rows (Logger.f s) = Logger.Header h :: body
         /\ Logger.write_header s = false
         /\ Logger.writer s = Some h
         /\ Forall (fun r => exists cells,
                        r = Logger.Cells cells /\ length cells = length h)
              body).
Proof.
  induction 1 as [|s c _ IH].
  - left. split; reflexivity.
  - destruct c as [items | display graph |]; cbn [Logger.perform].
    + rewrite log_cases.
      destruct (Logger.getitem items "_Episode"%string);
        [destruct (Logger.getitem (Logger.log_entry s) "_MeanReward"%string)|];
        exact IH.
    + destruct (write_file_cases s display graph)
        as [(Hr & Hh & _ & _ & Hw & _)
           | [(Hh & Hh' & _ & _ & _ & _ & h & Hw & Hw' & _ & Hr)
             | (Hh & Hh' & _ & _ & _ & _ & Hw' & Hr)]];
        cbv zeta in *.
      * rewrite Hr, Hh.
        destruct IH as [IH | (h & body & E & Hf & Hw0 & Hb)]; [now left|].
        right. exists h, body. repeat split; try assumption.
        destruct Hw as [-> | Ht]; [assumption | congruence].
      * destruct IH as [(_ & IH) | (h0 & body & E & _ & Hw0 & Hb)];
          [congruence|].
        right. exists h0, (body ++ [Logger.Cells
                                     (map (Logger.getitem (Logger.log_entry s)) h)]).
        rewrite Hr, E. repeat split; try assumption.
        -- congruence.
        -- apply Forall_app. split; [assumption|].
           constructor; [|constructor]. eexists. split; [reflexivity|].
           rewrite length_map. congruence.
      * destruct IH as [(E & _) | (h0 & body & _ & IH & _)]; [|congruence].
        right. eexists _, _. rewrite Hr, E. cbn [app].
        repeat split; try eassumption.
        constructor; [|constructor]. eexists. split; [reflexivity|].
        now rewrite length_map.
    + exact IH.
Qed.

Lemma X11_witness :
  (Logger.rows (Logger.f (snd (Logger.perform (Logger.Write false false)
                                 (Logger.init "env"%string)))) = []
   /\ Logger.write_header (snd (Logger.perform (Logger.Write false false)
                                  (Logger.init "env"%string))) = true)
  \/ (exists h body,
         Logger.rows (Logger.f (snd (Logger.perform (Logger.Write false false)
                                       (Logger.init "env"%string))))
         = Logger.Header h :: body
         /\ Logger.write_header (snd (Logger.perform (Logger.Write false false)
                                        (Logger.init "env"%string))) = false
         /\ Logger.writer (snd (Logger.perform (Logger.Write false false)
                                  (Logger.init "env"%string))) = Some h
         /\ Forall (fun r => exists cells,
                        r = Logger.Cells cells /\ length cells = length h)
              body).
Proof.
  apply (X11_csv_table "env"%string).
  apply Logger.reach_call. apply Logger.reach_init.
Defined.

Section LoggerLoops.

Lemma blocked_call (h : list Logger.key) (s : Logger.t) (c : Logger.call) :
  blocked h s ->
  blocked h (snd (Logger.perform c s))
  /\ Logger.rows (Logger.f (snd (Logger.perform c s)))
     = Logger.rows (Logger.f s).
Proof.
  intros (Hh & Hw & k & Hk & Hnk).
  destruct c as [items | display graph |]; cbn [Logger.perform].
  - rewrite log_cases.
    destruct (Logger.getitem items "_Episode"%string);
      [destruct (Logger.getitem (Logger.log_entry s) "_MeanReward"%string)|];
      cbn [snd]; (split; [|reflexivity]); repeat split; try assumption;
      exists k; (split; [|assumption]); cbn [Logger.log_entry];
      try assumption;
      destruct (keys_update (Logger.log_entry s) items) as (extra & -> & _);
      apply in_or_app; now left.
  - destruct (write_file_cases s display graph)
      as [(Hr & Hh' & He & _ & Hw' & _)
         | [(_ & _ & _ & _ & _ & _ & h' & Hw1 & _ & Hall & _)
           | (Ht & _)]];
      cbv zeta in *.
    + split; [|exact Hr]. repeat split.
      * congruence.
      * destruct Hw' as [-> | Ht]; [assumption | congruence].
      * exists k. rewrite He. now split.
    + exfalso. apply Hnk.
      assert (h' = h) by congruence. subst h'.
      pose proof (proj1 (forallb_forall _ _) Hall k Hk) as Hex.
      apply existsb_exists in Hex. destruct Hex as (k' & Hin & E).
      apply String.eqb_eq in E. now subst.
    + congruence.
  - split; [|reflexivity]. repeat split; try assumption. now exists k.
Qed.

Lemma closed_call (s : Logger.t) (c : Logger.call) :
  Logger.closed (Logger.f s) = true ->
  Logger.closed (Logger.f (snd (Logger.perform c s))) = true
  /\ Logger.rows (Logger.f (snd (Logger.perform c s)))
     = Logger.rows (Logger.f s).
Proof.
  intro Hc. destruct c as [items | display graph |]; cbn [Logger.perform].
  - rewrite log_cases.
    destruct (Logger.getitem items "_Episode"%string);
      [destruct (Logger.getitem (Logger.log_entry s) "_MeanReward"%string)|];
      now split.
  - destruct (write_file_cases s display graph)
      as [(Hr & _ & _ & Hc' & _) | [(_ & _ & Hf & _) | (_ & _ & Hf & _)]];
      cbv zeta in *; try congruence.
    split; [congruence | exact Hr].
  - now split.
Qed.

End LoggerLoops.

(** X12. A field that first appears after the header has been written
    blocks the log file for good: once the entry holds a field the header
    does not have, every later [write] raises, and whatever calls follow
    (their exceptions being caught), no row is written to the file any
    more. *)
Theorem X12_unknown_field_blocks
  (s : Logger.t) (h : list Logger.key) (k : Logger.key) (cs : list Logger.call) :
  Logger.write_header s = false ->
  Logger.writer s = Some h ->
  In k (Logger.keys (Logger.log_entry s)) ->
  ~ In k h ->
  Logger.rows (Logger.f (Logger.after cs s)) = Logger.rows (Logger.f s)
  /\ forall display graph,
       exists e,
         fst (Logger.write display graph (Logger.after cs s)) = Logger.Raise e.
Proof.
  intros Hh Hw Hk Hnk.
  assert (Hb : blocked h s) by (repeat split; try assumption; now exists k).
  clear Hh Hw Hk Hnk.
  assert (H : blocked h (Logger.after cs s)
              /\ Logger.rows (Logger.f (Logger.after cs s))
                 = Logger.rows (Logger.f s)).
  { revert s Hb. unfold Logger.after.
    induction cs as [|c cs IH]; intros s Hb; cbn [fold_left].
    - now split.
    - destruct (blocked_call h s c Hb) as (Hb' & Hr).
      destruct (IH _ Hb') as (Hb'' & Hr'). split; [assumption | congruence]. }
  destruct H as ((Hh & Hw & k' & Hk & Hnk) & Hr). split; [exact Hr|].
  intros display graph.
  destruct (write_file_cases (Logger.after cs s) display graph)
    as [(_ & _ & _ & _ & _ & He)
       | [(_ & _ & _ & _ & _ & _ & h' & Hw1 & _ & Hall & _) | (Ht & _)]];
    cbv zeta in *.
  - exact He.
  - exfalso. apply Hnk.
    assert (h' = h) by congruence. subst h'.
    pose proof (proj1 (forallb_forall _ _) Hall k' Hk) as Hex.
    apply existsb_exists in Hex. destruct Hex as (k0 & Hin & E).
    apply String.eqb_eq in E. now subst.
  - congruence.
Qed.

Lemma X12_witness :
  let s := Logger.after
             [Logger.Log [("Steps"%string, 7)];
              Logger.Write false false;
              Logger.Log [("Loss"%string, 2)]]
             (Logger.init "env"%string) in
  let cs := [Logger.Write false false; Logger.Log [("Steps"%string, 8)];
             Logger.Write false false] in
  Logger.rows (Logger.f (Logger.after cs s)) = Logger.rows (Logger.f s)
  /\ forall display graph,
       exists e,
         fst (Logger.write display graph (Logger.after cs s)) = Logger.Raise e.
Proof.
  apply (X12_unknown_field_blocks
           (Logger.after
              [Logger.Log [("Steps"%string, 7)];
               Logger.Write false false;
               Logger.Log [("Loss"%string, 2)]]
              (Logger.init "env"%string))
           ["Steps"%string] "Loss"%string).
  - reflexivity.
  - reflexivity.
  - left. reflexivity.
  - cbn. intuition discriminate.
Defined.

(** X13. Right after a [write] that returned normally the entry is empty:
    a [write] with display (the default) then raises
    [KeyError("_Episode")] and changes nothing, and a [log] call that
    gives "_Episode" raises [KeyError("_MeanReward")]. *)
Theorem X13_after_write
  (s s' : Logger.t) (display graph : bool) :
  Logger.write display graph s = (Logger.Ok tt, s') ->
  Logger.log_entry s' = []
  /\ (forall graph',
         Logger.write true graph' s'
         = (Logger.Raise (Logger.KeyError "_Episode"%string), s'))
  /\ (forall items,
         Logger.contains items "_Episode"%string = true ->
         fst (Logger.log items s')
         = Logger.Raise (Logger.KeyError "_MeanReward"%string)).
Proof.
  intro H.
  assert (He : Logger.log_entry s' = []).
  { destruct (write_file_cases s display graph)
      as [(_ & _ & _ & _ & _ & e & He)
         | [(_ & _ & _ & _ & He & _) | (_ & _ & _ & _ & He & _)]];
      cbv zeta in *; rewrite H in *; cbn [fst snd] in *;
      [discriminate | assumption | assumption]. }
  split; [exact He|]. split.
  - intro graph'. destruct s' as [name wh entry o w rewards eps out fig].
    cbn [Logger.log_entry] in He. subst entry. reflexivity.
  - intros items Hc. rewrite log_cases, He. unfold Logger.contains in Hc.
    destruct (Logger.getitem items "_Episode"%string); [|discriminate].
    reflexivity.
Qed.

Lemma X13_witness :
  let s' := snd (Logger.write false false (Logger.init "env"%string)) in
  Logger.log_entry s' = []
  /\ (forall graph',
         Logger.write true graph' s'
         = (Logger.Raise (Logger.KeyError "_Episode"%string), s'))
  /\ (forall items,
         Logger.contains items "_Episode"%string = true ->
         fst (Logger.log items s')
         = Logger.Raise (Logger.KeyError "_MeanReward"%string)).
Proof.
  apply (X13_after_write (Logger.init "env"%string) _ false false).
  reflexivity.
Defined.

(** X14. After [close] the file is never written again: the file stays
    closed and keeps its rows through any later calls (their exceptions
    being caught), and every later [write] raises. *)
Theorem X14_closed_file (s : Logger.t) (cs : list Logger.call) :
  let s' := Logger.after cs (snd (Logger.close s)) in
  Logger.closed (Logger.f s') = true
  /\ Logger.rows (Logger.f s') = Logger.rows (Logger.f s)
  /\ forall display graph,
       exists e, fst (Logger.write display graph s') = Logger.Raise e.
Proof.
  cbv zeta.
  assert (H : forall s0, Logger.closed (Logger.f s0) = true ->
              Logger.closed (Logger.f (Logger.after cs s0)) = true
              /\ Logger.rows (Logger.f (Logger.after cs s0))
                 = Logger.rows (Logger.f s0)).
  { unfold Logger.after. induction cs as [|c cs IH]; intros s0 Hc;
      cbn [fold_left].
    - now split.
    - destruct (closed_call s0 c Hc) as (Hc' & Hr).
      destruct (IH _ Hc') as (Hc'' & Hr'). split; [assumption | congruence]. }
  destruct (H (snd (Logger.close s)) eq_refl) as (Hc & Hr).
  split; [exact Hc|]. split; [exact Hr|].
  intros display graph.
  destruct (write_file_cases (Logger.after cs (snd (Logger.close s)))
              display graph)
    as [(_ & _ & _ & _ & _ & He) | [(_ & _ & Hf & _) | (_ & _ & Hf & _)]];
    cbv zeta in *; [exact He | congruence | congruence].
Qed.

(** X15. The two lists behind the plot.  In every instance a caller can
    hold, [mean_rewards] is no longer than [episodes]; and after a loop of
    calls on a fresh logger none of which raised, the two have the same
    length. *)
Theorem X15_plot_lists :
  (forall (name : String.string) (s : Logger.t),
      Logger.reachable name s ->
      (length (Logger.mean_rewards s) <= length (Logger.episodes s))%nat)
  /\ (forall (name : String.string) (cs : list Logger.call) (s : Logger.t),
         Logger.run cs (Logger.init name) = (Logger.Ok tt, s) ->
         length (Logger.mean_rewards s) = length (Logger.episodes s)).
Proof.
  split.
  - intros name s. induction 1 as [|s c _ IH]; [cbn; lia|].
    destruct c as [items | display graph |]; cbn [Logger.perform].
    + rewrite log_cases.
      destruct (Logger.getitem items "_Episode"%string);
        [destruct (Logger.getitem (Logger.log_entry s) "_MeanReward"%string)|];
        cbn [snd Logger.mean_rewards Logger.episodes];
        rewrite ?length_app; cbn [length]; lia.
    + destruct (write_keeps_lists s display graph) as (-> & ->). exact IH.
    + exact IH.
  - intros name cs.
    assert (H : forall s0 s,
              length (Logger.mean_rewards s0) = length (Logger.episodes s0) ->
              Logger.run cs s0 = (Logger.Ok tt, s) ->
              length (Logger.mean_rewards s) = length (Logger.episodes s)).
    { induction cs as [|c cs IH]; intros s0 s H0 Hrun.
      - cbn in Hrun. now injection Hrun as <-.
      - cbn [Logger.run] in Hrun. unfold Logger.bind in Hrun.
        destruct (Logger.perform c s0) as [[[]|e] s1] eqn:E;
          [|discriminate].
        apply (IH s1 s); [|exact Hrun].
        assert (Hs1 : s1 = snd (Logger.perform c s0)) by now rewrite E.
        assert (Hok : fst (Logger.perform c s0) = Logger.Ok tt)
          by now rewrite E.
        subst s1. clear E Hrun IH.
        destruct c as [items | display graph |]; cbn [Logger.perform] in *.
        + rewrite log_cases in *.
          destruct (Logger.getitem items "_Episode"%string);
            [destruct (Logger.getitem (Logger.log_entry s0)
                         "_MeanReward"%string)|];
            cbn [fst snd Logger.mean_rewards Logger.episodes] in *;
            try discriminate; rewrite ?length_app; cbn [length]; lia.
        + destruct (write_keeps_lists s0 display graph) as (-> & ->).
          exact H0.
        + exact H0. }
    intros s. apply H. reflexivity.
Qed.

Lemma X15_witness :
  length (Logger.mean_rewards
            (snd (Logger.run [Logger.Log [("_MeanReward"%string, 5)];
                              Logger.Log [("_Episode"%string, 1)];
                              Logger.Write true true]
                    (Logger.init "env"%string))))
  = length (Logger.episodes
              (snd (Logger.run [Logger.Log [("_MeanReward"%string, 5)];
                                Logger.Log [("_Episode"%string, 1)];
                                Logger.Write true true]
                      (Logger.init "env"%string)))).
Proof.
  apply (proj2 X15_plot_lists "env"%string
           [Logger.Log [("_MeanReward"%string, 5)];
            Logger.Log [("_Episode"%string, 1)];
            Logger.Write true true]).
  vm_compute. reflexivity.
Defined.

(** ** [HalfCheetahEnvV2]: the reward of a step *)





(** X17. A model with fewer than three position coordinates.  [_step]
    reads [qpos[0, 0]] and [qpos[2, 0]] before and after the simulation:
    it returns exactly when both states have at least three position
    coordinates and raises [IndexError] otherwise; when the state before
    is too short, the simulation is not run. *)
Theorem X17_step_index_error
  (do_simulation : list R -> nat -> HalfCheetah.data -> HalfCheetah.data)
  (timestep : R) (action : list R) (d : HalfCheetah.data) :
  let d' := do_simulation action HalfCheetah.frame_skip d in
  ((exists t,
       HalfCheetah._step do_simulation timestep action d
       = (HalfCheetah.Ok t, d'))
   <-> (3 <= length (HalfCheetah.qpos d))%nat
       /\ (3 <= length (HalfCheetah.qpos d'))%nat)
  /\ ((length (HalfCheetah.qpos d) < 3)%nat ->
      HalfCheetah._step do_simulation timestep action d
      = (HalfCheetah.Raise HalfCheetah.IndexError, d))
  /\ ((3 <= length (HalfCheetah.qpos d))%nat ->
      (length (HalfCheetah.qpos d') < 3)%nat ->
      HalfCheetah._step do_simulation timestep action d
      = (HalfCheetah.Raise HalfCheetah.IndexError, d')).
Proof.
  cbv zeta. unfold HalfCheetah._step, HalfCheetah.item.
  set (d1 := do_simulation action HalfCheetah.frame_skip d).
  destruct (HalfCheetah.qpos d) as [|a [|b [|c q]]];
    destruct (HalfCheetah.qpos d1) as [|a' [|b' [|c' q']]];
    cbn [nth_error length];
    (split; [split; [intros (t & H); try discriminate; split; lia
                    | intros (H1 & H2); try lia; eexists; reflexivity]
            | split; intros; try lia; reflexivity]).
Qed.

Lemma X17_witness :
  HalfCheetah._step (fun _ _ d => d) 1 [0] (HalfCheetah.mk_data [0; 0] [0; 0])
  = (HalfCheetah.Raise HalfCheetah.IndexError,
     HalfCheetah.mk_data [0; 0] [0; 0]).
Proof.
  apply (proj1 (proj2 (X17_step_index_error (fun _ _ d => d) 1 [0]
                         (HalfCheetah.mk_data [0; 0] [0; 0])))).
  cbn. lia.
Defined.
